(** * BankAccount: a shallow embedding of [bank_account_test1.py]

    The class [BankAccount] keeps a balance, a status string, and a list of
    transaction dictionaries behind name-mangled attributes; [deposit] and
    [withdraw] validate their argument, raise [ValueError] when a check
    fails, and otherwise update the balance and log one transaction.

    Modelling choices.
    - Amounts are Python [float]s, as the annotations say and the driver
      passes: IEEE 754 binary64 numbers, with their rounding, their two
      zeros, their infinities and NaN.  They are Rocq's primitive [float]s,
      whose [+], [-], [<=?] and [<?] are the processor's, and the
      comparisons with the literal [0] are comparisons with the float zero.
    - [datetime.now()] reads the wall clock; every operation that reads it
      receives the time as an argument [now].
    - A method mutates [self] and either returns or raises: it is a function
      from the object before the call to the object after the call together
      with the outcome, so that what an exception leaves behind is visible.
    - The three [ValueError]s are told apart by what they report
      (suspended account, non-positive amount, insufficient balance). *)

From Stdlib Require Import ZArith List String Lia Sorted Zpower Floats.
From stdpp Require Import base option list gmap.

Open Scope string_scope.
Open Scope list_scope.
Open Scope Z_scope.

(** ** Data *)

(** One entry of [__transaction_history]: the dictionary built by
    [__add_transaction] with the keys "type", "amount", "timestamp" and
    "balance_after". *)
Record transaction : Type := Transaction {
  type : string;
  amount : float;
  timestamp : Z;
  balance_after : float
}.

(** The instance attributes set by [__init__]. *)
Record BankAccount : Type := Account {
  account_number : Z;
  balance : float;
  name : string;
  transaction_history : list transaction;
  account_status : string;
  created_at : Z
}.

(** What a raised [ValueError] reports. *)
Inductive error : Type :=
| AccountSuspended   (* the account status is not "active" *)
| InvalidAmount      (* the amount is not greater than 0 *)
| InsufficientFunds. (* the balance is smaller than the amount *)

Inductive outcome (A : Type) : Type :=
| Return (a : A)
| Raise (e : error).
Arguments Return {A} a.
Arguments Raise {A} e.

(** ** Methods as state transformers with exceptions *)

Definition method (A : Type) : Type := BankAccount -> BankAccount * outcome A.

#[export] Instance method_ret : MRet method :=
  fun A a self => (self, Return a).

#[export] Instance method_bind : MBind method :=
  fun A B f m self =>
    match m self with
    | (self', Return a) => f a self'
    | (self', Raise e) => (self', Raise e)
    end.

Definition raise {A : Type} (e : error) : method A :=
  fun self => (self, Raise e).

Definition get_attr {A : Type} (attr : BankAccount -> A) : method A :=
  fun self => (self, Return (attr self)).

Definition set_balance (b : float) : method unit :=
  fun self =>
    (Account (account_number self) b (name self) (transaction_history self)
       (account_status self) (created_at self), Return tt).

Definition set_transaction_history (h : list transaction) : method unit :=
  fun self =>
    (Account (account_number self) (balance self) (name self) h
       (account_status self) (created_at self), Return tt).

Definition set_account_status (s : string) : method unit :=
  fun self =>
    (Account (account_number self) (balance self) (name self)
       (transaction_history self) s (created_at self), Return tt).

(** [if c: raise ValueError(...)] *)
Definition raise_if (c : bool) (e : error) : method unit :=
  if c then raise e else mret tt.

(** ** The class *)

(** [__init__]: stores its arguments unchecked, starts with an empty
    history and the status "active", and adds one to the class variable
    [__total_accounts], which is threaded as the second component. *)
Definition init (number : Z) (initial_balance : float) (owner : string) (now : Z)
    (total_accounts : Z) : BankAccount * Z :=
  (Account number initial_balance owner [] "active" now, total_accounts + 1).

(** [__add_transaction]: the dictionary records the balance as it is when
    the method runs, and is appended to the history. *)
Definition add_transaction (transaction_type : string) (amt : float) (now : Z)
    : method unit :=
  b ← get_attr balance;
  h ← get_attr transaction_history;
  set_transaction_history (h ++ [Transaction transaction_type amt now b]).

Definition deposit (amt : float) (now : Z) : method unit :=
  st ← get_attr account_status;
  raise_if (negb (st =? "active")%string) AccountSuspended;;
  raise_if (amt <=? 0)%float InvalidAmount;;
  b ← get_attr balance;
  set_balance (b + amt)%float;;
  add_transaction "deposit" amt now.

Definition withdraw (amt : float) (now : Z) : method unit :=
  st ← get_attr account_status;
  raise_if (negb (st =? "active")%string) AccountSuspended;;
  raise_if (amt <=? 0)%float InvalidAmount;;
  b ← get_attr balance;
  raise_if (b <? amt)%float InsufficientFunds;;
  b ← get_attr balance;
  set_balance (b - amt)%float;;
  add_transaction "withdraw" amt now.

Definition get_balance : method float := get_attr balance.

(** [list.copy()] of the history; in this value model a list is its
    contents (the object identities are modelled in [Module Store]). *)
Definition get_transaction_history : method (list transaction) :=
  get_attr transaction_history.

Definition suspend_account : method unit := set_account_status "suspended".

Definition activate_account : method unit := set_account_status "active".

(** [get_total_accounts]: a class method, reading the class variable. *)
Definition get_total_accounts (total_accounts : Z) : Z := total_accounts.

(** ** Calls and call sequences *)

(** The calls a client can make on one account. *)
Inductive call : Type :=
| Deposit (amt : float) (now : Z)
| Withdraw (amt : float) (now : Z)
| GetBalance
| GetTransactionHistory
| SuspendAccount
| ActivateAccount.

(** The method a call runs, its returned value dropped. *)
Definition call_method (c : call) : method unit :=
  match c with
  | Deposit amt now => deposit amt now
  | Withdraw amt now => withdraw amt now
  | GetBalance => get_balance ≫= λ _, mret tt
  | GetTransactionHistory => get_transaction_history ≫= λ _, mret tt
  | SuspendAccount => suspend_account
  | ActivateAccount => activate_account
  end.

(** The object after a call; a raised [ValueError] is caught by the client,
    as the demonstration driver does, and the object lives on. *)
Definition after (c : call) (self : BankAccount) : BankAccount :=
  fst (call_method c self).

(** The object after a sequence of calls, first call first. *)
Definition run (calls : list call) (self : BankAccount) : BankAccount :=
  fold_left (λ s c, after c s) calls self.

(** The object after construction and after each call of a sequence. *)
Fixpoint trace (calls : list call) (self : BankAccount) : list BankAccount :=
  self :: match calls with
          | [] => []
          | c :: calls' => trace calls' (after c self)
          end.

(** The history [h] is a chain from the balance [prev]: every entry's
    [balance_after] is the one before it (or [prev] for the first) plus the
    amount of a deposit or minus the amount of a withdrawal. *)
Fixpoint chained (prev : float) (h : list transaction) : Prop :=
  match h with
  | [] => True
  | t :: h' =>
      (type t = "deposit" ∧ balance_after t = (prev + amount t)%float
       ∨ type t = "withdraw" ∧ balance_after t = (prev - amount t)%float)
      ∧ chained (balance_after t) h'
  end.

(** The balance the chain ends at. *)
Definition closing_balance (prev : float) (h : list transaction) : float :=
  default prev (last (balance_after <$> h)).

(** The invariant every call keeps: the history is a chain from the
    initial balance that ends at the current balance. *)
Definition ledger_ok (initial_balance : float) (self : BankAccount) : Prop :=
  chained initial_balance (transaction_history self)
  ∧ closing_balance initial_balance (transaction_history self) = balance self.

(** ** The process: the class variable and every instance *)

Module Process.

(** The class variable [__total_accounts] and the instances alive, each
    under its object identity. *)
Record state : Type := State {
  total_accounts : Z;
  objects : gmap nat BankAccount
}.

(** The class statement sets [__total_accounts = 0]; no instance exists. *)
Definition start : state := State 0 ∅.

Inductive statement : Type :=
| New (number : Z) (initial_balance : float) (owner : string) (now : Z)
| Call (obj : nat) (c : call)
| GetTotalAccounts.

(** One client statement.  A call on an identity that names no instance
    cannot be written in the client, and is taken as doing nothing. *)
Definition step (s : statement) (st : state) : state :=
  match s with
  | New number initial_balance owner now =>
      let '(obj, total) :=
        init number initial_balance owner now (total_accounts st) in
      State total (<[fresh (dom (objects st)) := obj]> (objects st))
  | Call obj c =>
      match objects st !! obj with
      | Some self => State (total_accounts st) (<[obj := after c self]> (objects st))
      | None => st
      end
  | GetTotalAccounts => st
  end.

Definition exec (prog : list statement) (st : state) : state :=
  fold_left (λ st s, step s st) prog st.

(** What [BankAccount.get_total_accounts()] returns in a state. *)
Definition total (st : state) : Z := get_total_accounts (total_accounts st).

(** The constructions in a program. *)
Definition is_new (s : statement) : bool :=
  match s with New _ _ _ _ => true | _ => false end.

Definition constructions (prog : list statement) : Z :=
  Z.of_nat (length (filter is_new prog)).

End Process.

(** ** Object identities: the history as Python stores it *)

(** [__transaction_history] is a list object holding references to dictionary
  objects.  [get_transaction_history] returns [list.copy()]: a new list
  object with the same references.  This module keeps lists and
  dictionaries in a store, so that what a client can reach through the
  returned list is explicit. *)
Module Store.

Definition ref : Type := nat.

Inductive object : Type :=
| ListObj (items : list ref)
| DictObj (d : transaction).

Module Obj.
(** The instance attributes, the history being a reference. *)
Record BankAccount : Type := Account {
  account_number : Z;
  balance : float;
  name : string;
  transaction_history : ref;
  account_status : string;
  created_at : Z
}.
End Obj.

Record state : Type := State {
  self : Obj.BankAccount;
  heap : gmap ref object
}.

(** A new object gets an identity no object of the store has. *)
Definition alloc (o : object) (h : gmap ref object) : ref * gmap ref object :=
  let r := fresh (dom h) in (r, <[r := o]> h).

Definition init (number : Z) (initial_balance : float) (owner : string) (now : Z)
    (total_accounts : Z) (h : gmap ref object) : state * Z :=
  let '(r, h') := alloc (ListObj []) h in
  (State (Obj.Account number initial_balance owner r "active" now) h',
   total_accounts + 1).

Definition set_balance (b : float) (o : Obj.BankAccount) : Obj.BankAccount :=
  Obj.Account (Obj.account_number o) b (Obj.name o) (Obj.transaction_history o)
    (Obj.account_status o) (Obj.created_at o).

(** [__add_transaction]: builds the dictionary, then [append]s a reference
    to it to the list object.  [None] stands for the attribute not naming
    a list, which no method brings about. *)
Definition add_transaction (transaction_type : string) (amt : float) (now : Z)
    (st : state) : option state :=
  let '(d, h) :=
    alloc (DictObj (Transaction transaction_type amt now (Obj.balance (self st))))
      (heap st) in
  match h !! Obj.transaction_history (self st) with
  | Some (ListObj items) =>
      Some (State (self st)
              (<[Obj.transaction_history (self st) := ListObj (items ++ [d])]> h))
  | _ => None
  end.

Definition deposit (amt : float) (now : Z) (st : state)
    : option (state * outcome unit) :=
  if negb (Obj.account_status (self st) =? "active")%string
  then Some (st, Raise AccountSuspended)
  else if (amt <=? 0)%float then Some (st, Raise InvalidAmount)
  else
    let st1 := State (set_balance (Obj.balance (self st) + amt)%float (self st)) (heap st) in
    st2 ← add_transaction "deposit" amt now st1;
    Some (st2, Return tt).

Definition withdraw (amt : float) (now : Z) (st : state)
    : option (state * outcome unit) :=
  if negb (Obj.account_status (self st) =? "active")%string
  then Some (st, Raise AccountSuspended)
  else if (amt <=? 0)%float then Some (st, Raise InvalidAmount)
  else if (Obj.balance (self st) <? amt)%float then Some (st, Raise InsufficientFunds)
  else
    let st1 := State (set_balance (Obj.balance (self st) - amt)%float (self st)) (heap st) in
    st2 ← add_transaction "withdraw" amt now st1;
    Some (st2, Return tt).

(** [return self.__transaction_history.copy()]: a new list object with
    the items of the internal one; the reference to it is returned. *)
Definition get_transaction_history (st : state) : option (state * ref) :=
  match heap st !! Obj.transaction_history (self st) with
  | Some (ListObj items) =>
      let '(r, h) := alloc (ListObj items) (heap st) in
      Some (State (self st) h, r)
  | _ => None
  end.



(** Reading a list of dictionaries through the store. *)
Definition read_dict (h : gmap ref object) (r : ref) : option transaction :=
  match h !! r with
  | Some (DictObj d) => Some d
  | _ => None
  end.

Definition read_list (h : gmap ref object) (r : ref) : option (list transaction) :=
  match h !! r with
  | Some (ListObj items) => mapM (read_dict h) items
  | _ => None
  end.

(** The account's history as its methods see it. *)
Definition history (st : state) : option (list transaction) :=
  read_list (heap st) (Obj.transaction_history (self st)).

(** The instance as a value: the account of the value model that a
    well-formed state stands for. *)
Definition view (st : state) : option BankAccount :=
  h ← history st;
  Some (Account (Obj.account_number (self st)) (Obj.balance (self st))
          (Obj.name (self st)) h (Obj.account_status (self st))
          (Obj.created_at (self st))).


End Store.

(** ** Bookkeeping over call sequences *)

(** Whether a call, made on [self], logs a transaction: a [deposit] or
    [withdraw] that returns. *)
Definition logs (c : call) (self : BankAccount) : bool :=
  match c with
  | Deposit _ _ | Withdraw _ _ =>
      match snd (call_method c self) with
      | Return _ => true
      | Raise _ => false
      end
  | _ => false
  end.

(** The number of calls of a sequence that log a transaction, each judged
    on the object as the calls before it left it. *)
Fixpoint successes (calls : list call) (self : BankAccount) : nat :=
  match calls with
  | [] => 0%nat
  | c :: calls' => ((if logs c self then 1 else 0) + successes calls' (after c self))%nat
  end.

(** The balance a history leads to from the balance [b]: its deposits
    added and its withdrawals subtracted one after the other, first
    transaction first, with the arithmetic of the methods. *)
Definition replay (b : float) (h : list transaction) : float :=
  fold_left (λ b t, if (type t =? "deposit")%string then (b + amount t)%float
                    else if (type t =? "withdraw")%string then (b - amount t)%float
                    else b) h b.

(** An amount the arithmetic treats as a number: a [deposit] of anything
    but NaN, a [withdraw] of a finite amount. *)
Definition regular (c : call) : bool :=
  match c with
  | Deposit amt _ => negb (is_nan amt)
  | Withdraw amt _ => is_finite amt
  | _ => true
  end.

(** [0 <= x], read on the specification of a float. *)
Definition SFnonneg (x : spec_float) : bool := SFleb (S754_zero false) x.

Definition is_activate (c : call) : bool :=
  match c with ActivateAccount => true | _ => false end.

(** The clock reading a call hands to [__add_transaction], if it may log. *)
Definition call_time (c : call) : option Z :=
  match c with
  | Deposit _ now | Withdraw _ now => Some now
  | _ => None
  end.

(** * Binary64 arithmetic: what the checks of the methods rely on *)

(** The primitive operations are specified by [Prim2SF], the reading of a
    float as a sign, a mantissa and an exponent; the facts below are proved
    on that reading and carried back. *)

Lemma SFcompare_antisym x y :
  SFcompare y x = CompOpp <$> SFcompare x y.
Proof.
  destruct x as [[] | [] | | [] mx ex], y as [[] | [] | | [] my ey];
    simpl; try reflexivity;
    rewrite (Z.compare_antisym ex ey);
    destruct (ex ?= ey); simpl; try reflexivity;
    rewrite <- (Pos.compare_cont_antisym _ _ Eq); simpl;
    by destruct (Pos.compare_cont Eq mx my).
Qed.

Lemma SFcompare_None x y :
  SFcompare x y = None ↔ x = S754_nan ∨ y = S754_nan.
Proof.
  destruct x as [[] | [] | | [] mx ex], y as [[] | [] | | [] my ey];
    simpl; split; try done; try (by intros [|]); auto.
Qed.

(** [x < y] excludes [y <= x], and [x <= y] excludes [y < x]. *)
Lemma ltb_not_leb (x y : float) : (x <? y)%float = true → (y <=? x)%float = false.
Proof.
  rewrite FloatAxioms.ltb_spec, FloatAxioms.leb_spec. unfold SFltb, SFleb.
  rewrite (SFcompare_antisym (Prim2SF x) (Prim2SF y)).
  by destruct (SFcompare (Prim2SF x) (Prim2SF y)) as [[] |].
Qed.

Lemma leb_not_ltb (x y : float) : (x <=? y)%float = true → (y <? x)%float = false.
Proof.
  rewrite FloatAxioms.ltb_spec, FloatAxioms.leb_spec. unfold SFltb, SFleb.
  rewrite (SFcompare_antisym (Prim2SF x) (Prim2SF y)).
  by destruct (SFcompare (Prim2SF x) (Prim2SF y)) as [[] |].
Qed.

Lemma is_nan_spec (x : float) : is_nan x = true ↔ Prim2SF x = S754_nan.
Proof.
  unfold is_nan. rewrite FloatAxioms.eqb_spec. unfold SFeqb.
  destruct (Prim2SF x) as [[] | [] | | [] mx ex] eqn:Hx; simpl;
    try (split; [discriminate | discriminate]); try done.
  - rewrite Z.compare_refl, Pos.compare_cont_refl. simpl. split; discriminate.
  - rewrite Z.compare_refl, Pos.compare_cont_refl. simpl. split; discriminate.
Qed.

Lemma is_nan_false_spec (x : float) : is_nan x = false ↔ Prim2SF x ≠ S754_nan.
Proof.
  rewrite <- is_nan_spec. by destruct (is_nan x).
Qed.

(** The converses hold up to NaN, which fails every comparison. *)
Lemma leb_false_iff (x y : float) :
  (x <=? y)%float = false
  ↔ (y <? x)%float = true ∨ is_nan x = true ∨ is_nan y = true.
Proof.
  rewrite !is_nan_spec, FloatAxioms.ltb_spec, FloatAxioms.leb_spec.
  unfold SFltb, SFleb.
  rewrite (SFcompare_antisym (Prim2SF x) (Prim2SF y)).
  pose proof (SFcompare_None (Prim2SF x) (Prim2SF y)) as Hnone.
  destruct (SFcompare (Prim2SF x) (Prim2SF y)) as [[] |]; simpl;
    split; try done; auto.
  - intros [? | Hnan]; [done|]. by apply Hnone in Hnan.
  - intros [? | Hnan]; [done|]. by apply Hnone in Hnan.
  - intros _. right. by apply Hnone.
Qed.

Lemma ltb_false_iff (x y : float) :
  (x <? y)%float = false
  ↔ (y <=? x)%float = true ∨ is_nan x = true ∨ is_nan y = true.
Proof.
  rewrite !is_nan_spec, FloatAxioms.ltb_spec, FloatAxioms.leb_spec.
  unfold SFltb, SFleb.
  rewrite (SFcompare_antisym (Prim2SF x) (Prim2SF y)).
  pose proof (SFcompare_None (Prim2SF x) (Prim2SF y)) as Hnone.
  destruct (SFcompare (Prim2SF x) (Prim2SF y)) as [[] |]; simpl;
    split; try done; auto.
  - intros [? | Hnan]; [done|]. by apply Hnone in Hnan.
  - intros _. right. by apply Hnone.
Qed.

(** Rounding never turns a mantissa that is at least 0 negative. *)
Lemma shr_1_nonneg mrs : 0 <= shr_m mrs → 0 <= shr_m (shr_1 mrs).
Proof. destruct mrs as [[| [p | p |] | p] r s]; simpl; lia. Qed.

Lemma iter_pos_nonneg n : ∀ mrs,
  0 <= shr_m mrs → 0 <= shr_m (SpecFloat.iter_pos shr_1 n mrs).
Proof.
  induction n as [n IH | n IH |]; intros mrs Hm; simpl.
  - by apply IH, IH, shr_1_nonneg.
  - by apply IH, IH.
  - by apply shr_1_nonneg.
Qed.

Lemma shr_fexp_nonneg m e l :
  0 <= m → 0 <= shr_m (fst (shr_fexp prec emax m e l)).
Proof.
  intros Hm. unfold shr_fexp, shr.
  assert (0 <= shr_m (shr_record_of_loc m l)) as Hrec.
  { by destruct l as [| []]. }
  destruct (fexp prec emax (Zdigits2 m + e) - e); simpl; try done.
  by apply iter_pos_nonneg.
Qed.

Lemma round_nearest_even_nonneg m l : 0 <= m → 0 <= round_nearest_even m l.
Proof.
  intros Hm. destruct l as [| []]; simpl; try lia.
  destruct (Z.even m); lia.
Qed.

Lemma binary_round_aux_nonneg mx ex lx :
  0 <= mx → SFnonneg (binary_round_aux prec emax false mx ex lx) = true.
Proof.
  intros Hm. unfold binary_round_aux.
  pose proof (shr_fexp_nonneg mx ex lx Hm) as H1.
  destruct (shr_fexp prec emax mx ex lx) as [mrs' e']. simpl in H1.
  pose proof (shr_fexp_nonneg _ e' loc_Exact
                (round_nearest_even_nonneg _ (loc_of_shr_record mrs') H1)) as H2.
  destruct (shr_fexp prec emax _ e' loc_Exact) as [mrs'' e'']. simpl in H2.
  destruct (shr_m mrs'') as [| m | m]; [done | | lia].
  by destruct (e'' <=? emax - prec).
Qed.

Lemma binary_normalize_nonneg m e :
  0 <= m → SFnonneg (binary_normalize prec emax m e false) = true.
Proof.
  intros Hm. destruct m as [| m | m]; [done | | lia].
  unfold binary_normalize, binary_round.
  destruct (shl_align m e _) as [mz ez]. by apply binary_round_aux_nonneg.
Qed.

(** A float that fails [x <= 0] and is not NaN is a positive number. *)
Lemma SFpositive_cases x :
  SFleb x (S754_zero false) = false → x ≠ S754_nan →
  x = S754_infinity false ∨ ∃ m e, x = S754_finite false m e.
Proof.
  destruct x as [[] | [] | | [] m e]; try done; eauto.
Qed.

Lemma SFnonneg_cases x :
  SFnonneg x = true →
  (∃ s, x = S754_zero s) ∨ x = S754_infinity false ∨ ∃ m e, x = S754_finite false m e.
Proof.
  destruct x as [[] | [] | | [] m e]; try done; eauto.
Qed.

Lemma SFadd_nonneg b a :
  SFnonneg b = true → SFleb a (S754_zero false) = false → a ≠ S754_nan →
  SFnonneg (SF64add b a) = true.
Proof.
  intros Hb Ha Hnan.
  destruct (SFpositive_cases a Ha Hnan) as [-> | (ma & ea & ->)];
    destruct (SFnonneg_cases b Hb) as [[s ->] | [-> | (mb & eb & ->)]];
    try done.
  unfold SF64add, SFadd. apply binary_normalize_nonneg. simpl. lia.
Qed.

(** The mantissa of a float has as many binary digits as [digits2_pos]
    says; aligning two floats multiplies by a power of 2; and a valid
    float above the smallest exponent has a full mantissa. *)
Lemma digits2_pos_bounds m :
  2 ^ (Zpos (digits2_pos m) - 1) <= Zpos m < 2 ^ Zpos (digits2_pos m).
Proof.
  induction m as [m IH | m IH |]; simpl digits2_pos.
  - rewrite Pos2Z.inj_succ.
    replace (Z.succ (Zpos (digits2_pos m)) - 1) with (Z.succ (Zpos (digits2_pos m) - 1)) by lia.
    rewrite !Z.pow_succ_r by lia. lia.
  - rewrite Pos2Z.inj_succ.
    replace (Z.succ (Zpos (digits2_pos m)) - 1) with (Z.succ (Zpos (digits2_pos m) - 1)) by lia.
    rewrite !Z.pow_succ_r by lia. lia.
  - simpl. lia.
Qed.

Lemma shl_align_value mx ex ez :
  ez <= ex → Zpos (fst (shl_align mx ex ez)) = Zpos mx * 2 ^ (ex - ez).
Proof.
  intros Hle. unfold shl_align.
  destruct (ez - ex) as [| d | d] eqn:Hd; simpl; try lia.
  - replace (ex - ez) with 0 by lia. lia.
  - change (Pos.iter xO mx d) with (shift_pos d mx).
    rewrite shift_pos_correct, Zpower_pos_nat, Zpower_nat_Z, positive_nat_Z.
    replace (ex - ez) with (Zpos d) by lia. lia.
Qed.

Lemma bounded_canonical m e :
  bounded prec emax m e = true →
  emin <= e
  ∧ Zpos (digits2_pos m) <= prec
  ∧ (emin < e → Zpos (digits2_pos m) = prec).
Proof.
  unfold bounded, canonical_mantissa, fexp.
  intros [Hcanon _]%andb_prop. apply Z.eqb_eq in Hcanon. lia.
Qed.

(** Subtracting a positive finite float from one that is not below it
    gives a float that is at least 0. *)
Lemma SFsub_nonneg b ma ea :
  valid_binary b = true → valid_binary (S754_finite false ma ea) = true →
  b ≠ S754_nan → SFltb b (S754_finite false ma ea) = false →
  SFnonneg (SF64sub b (S754_finite false ma ea)) = true.
Proof.
  intros Hvb Hva Hnan Hlt.
  destruct b as [[] | [] | | [] mb eb]; try done.
  unfold SF64sub, SFsub. apply binary_normalize_nonneg. simpl cond_Zopp.
  rewrite !shl_align_value by lia.
  simpl in Hvb, Hva.
  destruct (bounded_canonical _ _ Hvb) as (Hb1 & Hb2 & Hb3).
  destruct (bounded_canonical _ _ Hva) as (Ha1 & Ha2 & Ha3).
  unfold SFltb in Hlt. simpl in Hlt.
  pose proof (digits2_pos_bounds ma) as Hma.
  pose proof (digits2_pos_bounds mb) as Hmb.
  destruct (Z.compare_spec eb ea) as [-> | Hlt' | Hgt]; [| done |].
  - rewrite Z.min_id, Z.sub_diag. simpl.
    change (Pos.compare_cont Eq mb ma) with (mb ?= ma)%positive in Hlt.
    destruct (Pos.compare_spec mb ma); [lia | done | lia].
  - rewrite Z.min_r by lia. rewrite Z.sub_diag. simpl (2 ^ 0).
    rewrite Hb3 in Hmb by lia.
    assert (Zpos ma < 2 ^ prec) as Hma'.
    { eapply Z.lt_le_trans; [apply Hma|]. apply Z.pow_le_mono_r; lia. }
    assert (2 ^ 1 <= 2 ^ (eb - ea)) as Hpow by (apply Z.pow_le_mono_r; lia).
    change (2 ^ prec) with (2 ^ (prec - 1) * 2 ^ 1) in Hma'.
    nia.
Qed.

Lemma is_finite_spec (x : float) :
  is_finite x = true →
  Prim2SF x ≠ S754_nan ∧ ∀ s, Prim2SF x ≠ S754_infinity s.
Proof.
  unfold is_finite, is_infinity. intros [Hnan Hinf]%negb_true_iff%orb_false_elim.
  split; [by apply is_nan_false_spec|].
  intros s Hx. rewrite FloatAxioms.eqb_spec, abs_spec, Hx in Hinf. done.
Qed.

(** The two facts the balance rests on.  A [deposit] that passes its
    check adds to a balance of at least 0 an amount that is positive or
    NaN; a [withdraw] that passes its checks subtracts an amount that is
    positive and not above the balance, or NaN. *)
Lemma add_nonneg (b a : float) :
  (0 <=? b)%float = true → (a <=? 0)%float = false → is_nan a = false →
  (0 <=? b + a)%float = true.
Proof.
  rewrite !FloatAxioms.leb_spec, add_spec, is_nan_false_spec.
  apply SFadd_nonneg.
Qed.

Lemma sub_nonneg (b a : float) :
  is_nan b = false → (a <=? 0)%float = false → (b <? a)%float = false →
  is_finite a = true →
  (0 <=? b - a)%float = true.
Proof.
  rewrite !FloatAxioms.leb_spec, FloatAxioms.ltb_spec, sub_spec, is_nan_false_spec.
  intros Hb Ha Hlt [Hnan Hinf]%is_finite_spec.
  pose proof (Prim2SF_valid b) as Hvb. pose proof (Prim2SF_valid a) as Hva.
  destruct (SFpositive_cases _ Ha Hnan) as [Heq | (ma & ea & Heq)];
    [by destruct (Hinf false)|].
  rewrite Heq in *. by apply SFsub_nonneg.
Qed.

(** * The claims *)

(** ** Worked examples: the scenario of the demonstration driver *)

Example deposit_500 :
  deposit 500 7 (Account 1001 1000 "a" [] "active" 0)
  = (Account 1001 1500 "a" [Transaction "deposit" 500 7 1500] "active" 0, Return tt).
Proof. reflexivity. Qed.

Example driver_scenario :
  let s := run [Deposit 500 1; Withdraw 300 2; SuspendAccount]
               (fst (init 1001 1000 "a" 0 0)) in
  balance s = 1200%float
  ∧ transaction_history s
    = [Transaction "deposit" 500 1 1500; Transaction "withdraw" 300 2 1200]
  ∧ deposit 100 3 s = (s, Raise AccountSuspended).
Proof. repeat split. Qed.

(** The arithmetic is the processor's: a sum is rounded, and NaN passes
    the test [amount <= 0]. *)
Example deposit_rounds :
  balance (after (Deposit 1 1) (Account 1001 1e16 "a" [] "active" 0)) = 1e16%float
  ∧ balance (after (Deposit 0x1.999999999999ap-3 1)
               (Account 1001 0x1.999999999999ap-4 "a" [] "active" 0))
    = 0x1.3333333333334p-2%float.
Proof. split; reflexivity. Qed.

Example deposit_nan_returns :
  snd (deposit nan 1 (Account 1001 1000 "a" [] "active" 0)) = Return tt
  ∧ is_nan (balance (after (Deposit nan 1) (Account 1001 1000 "a" [] "active" 0))) = true.
Proof. split; reflexivity. Qed.

(** ** The methods as decision tables *)

Lemma deposit_cases amt now self :
  deposit amt now self =
  if negb (account_status self =? "active")%string then (self, Raise AccountSuspended)
  else if (amt <=? 0)%float then (self, Raise InvalidAmount)
  else (Account (account_number self) (balance self + amt)%float (name self)
          (transaction_history self
             ++ [Transaction "deposit" amt now (balance self + amt)%float])
          (account_status self) (created_at self), Return tt).
Proof.
  unfold deposit, mbind, method_bind, get_attr, raise_if, raise; simpl.
  destruct (negb _); [reflexivity|].
  destruct (amt <=? 0)%float; reflexivity.
Qed.

Lemma withdraw_cases amt now self :
  withdraw amt now self =
  if negb (account_status self =? "active")%string then (self, Raise AccountSuspended)
  else if (amt <=? 0)%float then (self, Raise InvalidAmount)
  else if (balance self <? amt)%float then (self, Raise InsufficientFunds)
  else (Account (account_number self) (balance self - amt)%float (name self)
          (transaction_history self
             ++ [Transaction "withdraw" amt now (balance self - amt)%float])
          (account_status self) (created_at self), Return tt).
Proof.
  unfold withdraw, mbind, method_bind, get_attr, raise_if, raise; simpl.
  destruct (negb _); [reflexivity|].
  destruct (amt <=? 0)%float; [reflexivity|]; simpl.
  destruct (balance self <? amt)%float; reflexivity.
Qed.

Lemma status_test_active self :
  account_status self = "active" →
  negb (account_status self =? "active")%string = false.
Proof. intros ->. reflexivity. Qed.

Lemma status_test_other self :
  account_status self ≠ "active" →
  negb (account_status self =? "active")%string = true.
Proof.
  intros Hne. destruct (String.eqb_spec (account_status self) "active");
    [contradiction | reflexivity].
Qed.

(** ** Deposit and withdrawal *)

(** C2: on an account whose status is "active", [deposit] of an amount
    greater than 0 returns normally, the balance after the call is the
    balance before it plus the amount (the float sum [balance + amount]
    the method computes; Python's [==] agrees unless that sum is NaN), and
    the history after the call is the history before it followed by
    exactly one "deposit" transaction, whose [balance_after] is the new
    balance.  No other attribute changes. *)
Theorem deposit_succeeds (self : BankAccount) (amt : float) (now : Z) :
  account_status self = "active" →
  (0 <? amt)%float = true →
  let self' := fst (deposit amt now self) in
  snd (deposit amt now self) = Return tt
  ∧ balance self' = (balance self + amt)%float
  ∧ (is_nan (balance self + amt) = false →
     (balance self' =? balance self + amt)%float = true)
  ∧ transaction_history self'
    = transaction_history self ++ [Transaction "deposit" amt now (balance self')]
  ∧ account_status self' = account_status self
  ∧ account_number self' = account_number self
  ∧ name self' = name self
  ∧ created_at self' = created_at self.
Proof.
  intros Hactive Hpos. rewrite deposit_cases, (status_test_active _ Hactive).
  rewrite (ltb_not_leb _ _ Hpos).
  cbn. split_and!; try done.
  unfold is_nan. by intros ->%negb_false_iff.
Qed.

Lemma deposit_succeeds_witness :
  snd (deposit 500 1 (Account 1001 1000 "a" [] "active" 0)) = Return tt
  ∧ balance (fst (deposit 500 1 (Account 1001 1000 "a" [] "active" 0))) = 1500%float.
Proof.
  pose proof (deposit_succeeds (Account 1001 1000 "a" [] "active" 0) 500 1
                eq_refl eq_refl) as H.
  split; [apply H | apply (proj1 (proj2 H))].
Defined.

(** C3: on an account whose status is "active", [withdraw] of an amount
    greater than 0 and at most the balance returns normally, the balance
    after the call is the balance before it minus the amount (the float
    difference [balance - amount] the method computes; Python's [==]
    agrees unless that difference is NaN), and the history after the call
    is the history before it followed by exactly one "withdraw"
    transaction, whose [balance_after] is the new balance.  No other
    attribute changes. *)
Theorem withdraw_succeeds (self : BankAccount) (amt : float) (now : Z) :
  account_status self = "active" →
  (0 <? amt)%float = true →
  (amt <=? balance self)%float = true →
  let self' := fst (withdraw amt now self) in
  snd (withdraw amt now self) = Return tt
  ∧ balance self' = (balance self - amt)%float
  ∧ (is_nan (balance self - amt) = false →
     (balance self' =? balance self - amt)%float = true)
  ∧ transaction_history self'
    = transaction_history self ++ [Transaction "withdraw" amt now (balance self')]
  ∧ account_status self' = account_status self
  ∧ account_number self' = account_number self
  ∧ name self' = name self
  ∧ created_at self' = created_at self.
Proof.
  intros Hactive Hpos Hfunds. rewrite withdraw_cases, (status_test_active _ Hactive).
  rewrite (ltb_not_leb _ _ Hpos), (leb_not_ltb _ _ Hfunds).
  cbn. split_and!; try done.
  unfold is_nan. by intros ->%negb_false_iff.
Qed.

Lemma withdraw_succeeds_witness :
  snd (withdraw 300 2 (Account 1001 1500 "a" [] "active" 0)) = Return tt
  ∧ balance (fst (withdraw 300 2 (Account 1001 1500 "a" [] "active" 0))) = 1200%float.
Proof.
  pose proof (withdraw_succeeds (Account 1001 1500 "a" [] "active" 0) 300 2
                eq_refl eq_refl eq_refl) as H.
  split; [apply H | apply (proj1 (proj2 H))].
Defined.

(** A raised exception leaves the object as it was: both methods raise
    before their first assignment. *)
Lemma deposit_raise_unchanged amt now self e :
  snd (deposit amt now self) = Raise e → fst (deposit amt now self) = self.
Proof.
  rewrite deposit_cases.
  destruct (negb _); [reflexivity|].
  destruct (amt <=? 0)%float; [reflexivity | discriminate].
Qed.

Lemma withdraw_raise_unchanged amt now self e :
  snd (withdraw amt now self) = Raise e → fst (withdraw amt now self) = self.
Proof.
  rewrite withdraw_cases.
  destruct (negb _); [reflexivity|].
  destruct (amt <=? 0)%float; [reflexivity|].
  destruct (balance self <? amt)%float; [reflexivity | discriminate].
Qed.

(** C4: [withdraw] checks, in this order, the status, the sign of the
    amount, and the funds.  A status other than "active" (so "suspended")
    raises AccountSuspended whatever the amount; on an active account an
    amount of at most 0 raises InvalidAmount whatever the balance; on an
    active account a positive amount above the balance raises
    InsufficientFunds; in every other case the call returns.  Whenever it
    raises, the object is as it was before the call. *)
Theorem withdraw_check_order (self : BankAccount) (amt : float) (now : Z) :
  (account_status self ≠ "active" →
     withdraw amt now self = (self, Raise AccountSuspended))
  ∧ (account_status self = "active" → (amt <=? 0)%float = true →
     withdraw amt now self = (self, Raise InvalidAmount))
  ∧ (account_status self = "active" → (0 <? amt)%float = true →
     (balance self <? amt)%float = true →
     withdraw amt now self = (self, Raise InsufficientFunds))
  ∧ (account_status self = "active" → (0 <? amt)%float = true →
     (amt <=? balance self)%float = true →
     snd (withdraw amt now self) = Return tt)
  ∧ (∀ e, snd (withdraw amt now self) = Raise e →
     fst (withdraw amt now self) = self).
Proof.
  repeat split.
  - intros Hst. by rewrite withdraw_cases, (status_test_other _ Hst).
  - intros Hst Hle. by rewrite withdraw_cases, (status_test_active _ Hst), Hle.
  - intros Hst Hpos Hlt.
    by rewrite withdraw_cases, (status_test_active _ Hst), (ltb_not_leb _ _ Hpos), Hlt.
  - intros Hst Hpos Hle.
    by rewrite withdraw_cases, (status_test_active _ Hst), (ltb_not_leb _ _ Hpos),
         (leb_not_ltb _ _ Hle).
  - intros e. apply withdraw_raise_unchanged.
Qed.

(** C5: when [deposit] or [withdraw] raises (AccountSuspended,
    InvalidAmount or InsufficientFunds), the object after the call is the
    object before the call: balance, history, status and every other
    attribute are untouched. *)
Theorem failed_call_leaves_account (self : BankAccount) (amt : float) (now : Z)
    (e : error) :
  (snd (deposit amt now self) = Raise e →
     fst (deposit amt now self) = self
     ∧ balance (fst (deposit amt now self)) = balance self
     ∧ transaction_history (fst (deposit amt now self)) = transaction_history self
     ∧ account_status (fst (deposit amt now self)) = account_status self)
  ∧ (snd (withdraw amt now self) = Raise e →
     fst (withdraw amt now self) = self
     ∧ balance (fst (withdraw amt now self)) = balance self
     ∧ transaction_history (fst (withdraw amt now self)) = transaction_history self
     ∧ account_status (fst (withdraw amt now self)) = account_status self).
Proof.
  split; intros Hraise.
  - by rewrite (deposit_raise_unchanged _ _ _ _ Hraise).
  - by rewrite (withdraw_raise_unchanged _ _ _ _ Hraise).
Qed.

(** ** Status changes *)

(** C9: [suspend_account] and [activate_account] always return, set the
    status to "suspended" and to "active", and touch no other attribute;
    running either twice is the same as running it once, and running it on
    an account that already has that status leaves the object identical. *)
Theorem suspend_activate_unconditional (self : BankAccount) :
  let s := fst (suspend_account self) in
  let a := fst (activate_account self) in
  (snd (suspend_account self) = Return tt
   ∧ account_status s = "suspended"
   ∧ balance s = balance self
   ∧ transaction_history s = transaction_history self
   ∧ fst (suspend_account s) = s
   ∧ (account_status self = "suspended" → s = self))
  ∧ (snd (activate_account self) = Return tt
     ∧ account_status a = "active"
     ∧ balance a = balance self
     ∧ transaction_history a = transaction_history self
     ∧ fst (activate_account a) = a
     ∧ (account_status self = "active" → a = self)).
Proof.
  destruct self as [n b o h st t]; cbn.
  repeat split; intros ->; reflexivity.
Qed.

(** ** The balance and zero *)

Lemma after_cases c self :
  after c self = self
  ∨ (∃ amt now, c = Deposit amt now ∧ (amt <=? 0)%float = false
       ∧ balance (after c self) = (balance self + amt)%float
       ∧ transaction_history (after c self)
         = transaction_history self
             ++ [Transaction "deposit" amt now (balance (after c self))])
  ∨ (∃ amt now, c = Withdraw amt now ∧ (amt <=? 0)%float = false
       ∧ (balance self <? amt)%float = false
       ∧ balance (after c self) = (balance self - amt)%float
       ∧ transaction_history (after c self)
         = transaction_history self
             ++ [Transaction "withdraw" amt now (balance (after c self))])
  ∨ (balance (after c self) = balance self
     ∧ transaction_history (after c self) = transaction_history self).
Proof.
  destruct c as [amt now | amt now | | | |]; unfold after, call_method.
  - rewrite deposit_cases.
    destruct (negb _); [by left|].
    destruct (amt <=? 0)%float eqn:Hamt; [by left|].
    right; left. exists amt, now. by repeat split.
  - rewrite withdraw_cases.
    destruct (negb _); [by left|].
    destruct (amt <=? 0)%float eqn:Hamt; [by left|].
    destruct (balance self <? amt)%float eqn:Hb; [by left|].
    right; right; left. exists amt, now. by repeat split.
  - by left.
  - by left.
  - by repeat right.
  - by repeat right.
Qed.

Lemma leb_true_not_nan (x y : float) :
  (x <=? y)%float = true → is_nan x = false ∧ is_nan y = false.
Proof.
  intros Hle. destruct (is_nan x) eqn:Hx, (is_nan y) eqn:Hy; try done;
    assert ((x <=? y)%float = false) as Hf
      by (apply leb_false_iff; auto); congruence.
Qed.

Lemma after_nonnegative c self :
  (0 <=? balance self)%float = true → regular c = true →
  (0 <=? balance (after c self))%float = true.
Proof.
  intros Hnonneg Hreg.
  destruct (after_cases c self)
    as [-> | [(amt & now & -> & Hamt & -> & _)
           | [(amt & now & -> & Hamt & Hb & -> & _) | [-> _]]]]; try done.
  - apply add_nonneg; [done | done |]. simpl in Hreg. by destruct (is_nan amt).
  - apply sub_nonneg; try done. by apply (leb_true_not_nan 0).
Qed.

(** C10 as stated fails: NaN is not at most 0, so [deposit] of NaN on an
    account with balance 1000 passes the check, returns, and leaves the
    balance NaN, which is not at least 0; and on a balance of infinity,
    [withdraw] of infinity passes both checks and leaves NaN as well. *)
Lemma nan_amount_breaks_nonnegativity :
  (0 <=? balance (Account 1001 1000 "a" [] "active" 0))%float = true
  ∧ snd (deposit nan 1 (Account 1001 1000 "a" [] "active" 0)) = Return tt
  ∧ (0 <=? balance (after (Deposit nan 1) (Account 1001 1000 "a" [] "active" 0)))%float
    = false
  ∧ (0 <=? balance (Account 1001 infinity "a" [] "active" 0))%float = true
  ∧ (0 <=? balance (after (Withdraw infinity 1)
                      (Account 1001 infinity "a" [] "active" 0)))%float = false.
Proof. repeat split. Qed.

(** C10, amended: if the balance is at least 0 before a call of [deposit]
    with an amount that is not NaN, of [withdraw] with a finite amount, of
    [suspend_account], of [activate_account] (or of a getter), it is at
    least 0 after the call, whether the call returned or raised. *)
Theorem call_keeps_balance_nonnegative (self : BankAccount) (c : call) :
  (0 <=? balance self)%float = true →
  regular c = true →
  (0 <=? balance (after c self))%float = true.
Proof.
  intros Hnonneg Hreg.
  destruct c as [amt now | amt now | | | |]; unfold after, call_method;
    try done.
  - rewrite deposit_cases.
    destruct (negb _); [done|].
    destruct (amt <=? 0)%float eqn:Hamt; [done|]. simpl.
    apply add_nonneg; [done | done |]. simpl in Hreg. by destruct (is_nan amt).
  - rewrite withdraw_cases.
    destruct (negb _); [done|].
    destruct (amt <=? 0)%float eqn:Hamt; [done|].
    destruct (balance self <? amt)%float eqn:Hb; [done|]. simpl.
    apply sub_nonneg; try done. by apply (leb_true_not_nan 0).
Qed.

Lemma call_keeps_balance_nonnegative_witness :
  (0 <=? balance (after (Withdraw 1000 1) (Account 1001 1000 "a" [] "active" 0)))%float
  = true
  ∧ (0 <=? balance (after (Withdraw 1001 1) (Account 1001 1000 "a" [] "active" 0)))%float
    = true
  ∧ (0 <=? balance (after (Deposit 0.5 1) (Account 1001 1e16 "a" [] "active" 0)))%float
    = true.
Proof.
  split_and!; apply call_keeps_balance_nonnegative; reflexivity.
Defined.

(** C1 as stated fails: the constructor stores a negative initial balance
    as it is, so the balance is below 0 right after construction; and from
    an initial balance of 1000, [deposit] of NaN leaves a balance that is
    not at least 0. *)
Lemma negative_initial_balance_accepted :
  ¬ Forall (λ s, (0 <=? balance s)%float = true)
      (trace [] (fst (init 1001 (-5) "a" 0 0)))
  ∧ ¬ Forall (λ s, (0 <=? balance s)%float = true)
        (trace [Deposit nan 1] (fst (init 1001 1000 "a" 0 0))).
Proof.
  split; intros H.
  - apply Forall_inv in H. done.
  - apply Forall_inv_tail, Forall_inv in H. done.
Qed.

(** The states of a trace are the states reached by the prefixes. *)
Lemma trace_lookup calls : ∀ self k s,
  trace calls self !! k = Some s → s = run (take k calls) self.
Proof.
  induction calls as [| c calls IH]; intros self [| k] s; simpl.
  - by intros [= <-].
  - done.
  - by intros [= <-].
  - apply IH.
Qed.

(** C1, amended: for an account constructed with an initial balance of at
    least 0, and calls in which no [deposit] takes NaN and every [withdraw]
    takes a finite amount, the balance is at least 0 right after
    construction and after every call of the sequence. *)
Theorem balance_nonnegative_from_construction
    (number : Z) (initial_balance : float) (owner : string) (now total : Z)
    (calls : list call) :
  (0 <=? initial_balance)%float = true →
  Forall (λ c, regular c = true) calls →
  Forall (λ s, (0 <=? balance s)%float = true)
    (trace calls (fst (init number initial_balance owner now total))).
Proof.
  intros Hb.
  assert ((0 <=? balance (fst (init number initial_balance owner now total)))%float
          = true) as Hstart by done.
  revert Hstart. generalize (fst (init number initial_balance owner now total)).
  induction calls as [| c calls IH]; intros self Hnonneg Hreg; simpl.
  - by repeat constructor.
  - apply Forall_cons in Hreg as [Hc Hreg].
    constructor; [done|]. apply IH; [|done].
    by apply after_nonnegative.
Qed.

Lemma balance_nonnegative_from_construction_witness :
  Forall (λ s, (0 <=? balance s)%float = true)
    (trace [Deposit 500 1; Withdraw 2000 2; Withdraw 1500 3; SuspendAccount]
       (fst (init 1001 1000 "a" 0 0))).
Proof.
  apply balance_nonnegative_from_construction.
  - reflexivity.
  - repeat constructor.
Defined.

(** ** The history is a chain of balances *)

Lemma run_app calls1 calls2 self :
  run (calls1 ++ calls2) self = run calls2 (run calls1 self).
Proof. apply fold_left_app. Qed.

Lemma run_snoc calls c self :
  run (calls ++ [c]) self = after c (run calls self).
Proof. by rewrite run_app. Qed.

Lemma closing_balance_snoc prev h t :
  closing_balance prev (h ++ [t]) = balance_after t.
Proof.
  unfold closing_balance. rewrite fmap_app. simpl. by rewrite last_snoc.
Qed.

Lemma closing_balance_cons prev u h :
  closing_balance prev (u :: h) = closing_balance (balance_after u) h.
Proof.
  unfold closing_balance. rewrite fmap_cons, last_cons.
  by destruct (last (balance_after <$> h)).
Qed.

Lemma chained_snoc t : ∀ h prev,
  chained prev h →
  (type t = "deposit" ∧ balance_after t = (closing_balance prev h + amount t)%float
   ∨ type t = "withdraw" ∧ balance_after t = (closing_balance prev h - amount t)%float) →
  chained prev (h ++ [t]).
Proof.
  induction h as [| u h IH]; intros prev Hchain Hstep; simpl in *.
  - done.
  - destruct Hchain as [Hu Hchain]. split; [done|].
    apply IH; [done|]. by rewrite <- (closing_balance_cons prev).
Qed.

Lemma ledger_ok_after b0 c self : ledger_ok b0 self → ledger_ok b0 (after c self).
Proof.
  intros [Hchain Hclose].
  destruct (after_cases c self)
    as [-> | [(amt & now & _ & _ & Hb & Hh)
           | [(amt & now & _ & _ & _ & Hb & Hh) | [Hb Hh]]]].
  - done.
  - split; rewrite Hh.
    + apply chained_snoc; [done|]. left. simpl. split; [done|]. by rewrite Hclose.
    + apply closing_balance_snoc.
  - split; rewrite Hh.
    + apply chained_snoc; [done|]. right. simpl. split; [done|]. by rewrite Hclose.
    + apply closing_balance_snoc.
  - split; rewrite Hh; [done|]. by rewrite Hb.
Qed.

Lemma ledger_ok_run b0 calls : ∀ self, ledger_ok b0 self → ledger_ok b0 (run calls self).
Proof.
  induction calls as [| c calls IH]; intros self Hok; simpl; [done|].
  apply IH. by apply ledger_ok_after.
Qed.

(** A call leaves the history as it is or appends one transaction that
    records the balance the call leaves. *)
Lemma after_history c self :
  transaction_history (after c self) = transaction_history self
  ∨ ∃ t, transaction_history (after c self) = transaction_history self ++ [t]
         ∧ balance_after t = balance (after c self).
Proof.
  destruct (after_cases c self)
    as [-> | [(amt & now & _ & _ & _ & Hh)
           | [(amt & now & _ & _ & _ & _ & Hh) | [_ Hh]]]].
  - by left.
  - right. eexists. split; [exact Hh | done].
  - right. eexists. split; [exact Hh | done].
  - by left.
Qed.

(** Every transaction of the history was appended by one call of the
    sequence, on top of the transactions before it, and records the balance
    that call left. *)
Lemma transaction_provenance self0 calls : ∀ k t,
  transaction_history (run calls self0) !! k = Some t →
  (length (transaction_history self0) ≤ k)%nat →
  ∃ before c rest,
    calls = before ++ c :: rest
    ∧ transaction_history (run before self0)
      = take k (transaction_history (run calls self0))
    ∧ transaction_history (run (before ++ [c]) self0)
      = take k (transaction_history (run calls self0)) ++ [t]
    ∧ balance (run (before ++ [c]) self0) = balance_after t.
Proof.
  induction calls as [| c calls IH] using rev_ind; intros k t Hk Hlen.
  - simpl in Hk. apply lookup_lt_Some in Hk. lia.
  - rewrite run_snoc in *.
    destruct (after_history c (run calls self0)) as [Hsame | (u & Happ & Hbal)].
    + rewrite Hsame in *.
      destruct (IH k t Hk Hlen) as (before & c' & rest & -> & Hpre & Hat & Hb).
      exists before, c', (rest ++ [c]).
      by rewrite <- app_assoc.
    + rewrite Happ in *.
      destruct (decide (k < length (transaction_history (run calls self0)))%nat)
        as [Hin | Hout].
      * rewrite lookup_app_l in Hk by done.
        destruct (IH k t Hk Hlen) as (before & c' & rest & -> & Hpre & Hat & Hb).
        exists before, c', (rest ++ [c]).
        rewrite take_app_le by lia.
        by rewrite <- app_assoc.
      * assert (k = length (transaction_history (run calls self0))) as ->.
        { apply lookup_lt_Some in Hk. rewrite length_app in Hk. simpl in Hk. lia. }
        rewrite list_lookup_middle in Hk by done. injection Hk as <-.
        exists calls, c, [].
        rewrite take_app_length, run_snoc, Happ. done.
Qed.

(** C6: after any sequence of calls on a constructed account, the history
    is a chain: the first transaction's [balance_after] is the initial
    balance plus its amount (a deposit) or minus its amount (a withdrawal),
    and every later one's is the previous [balance_after] plus or minus its
    amount, as the methods' float arithmetic computes them; the chain ends
    at the current balance; and every transaction
    was appended by one call of the sequence, whose balance right after
    that call is the transaction's [balance_after]. *)
Theorem history_chain (number : Z) (initial_balance : float) (owner : string)
    (now total : Z) (calls : list call) :
  let self0 := fst (init number initial_balance owner now total) in
  let self := run calls self0 in
  chained initial_balance (transaction_history self)
  ∧ closing_balance initial_balance (transaction_history self) = balance self
  ∧ ∀ k t, transaction_history self !! k = Some t →
      ∃ before c rest,
        calls = before ++ c :: rest
        ∧ transaction_history (run before self0) = take k (transaction_history self)
        ∧ transaction_history (run (before ++ [c]) self0)
          = take k (transaction_history self) ++ [t]
        ∧ balance (run (before ++ [c]) self0) = balance_after t.
Proof.
  intros self0 self.
  assert (ledger_ok initial_balance self) as [Hchain Hclose].
  { apply ledger_ok_run. by split. }
  repeat split; [done | done |].
  intros k t Hk. apply (transaction_provenance self0 calls k t Hk). simpl. lia.
Qed.

(** ** The class-wide counter *)

Lemma step_total_accounts s st :
  Process.total_accounts (Process.step s st)
  = Process.total_accounts st + (if Process.is_new s then 1 else 0).
Proof.
  destruct s as [number b owner now | obj c |]; simpl.
  - done.
  - destruct (Process.objects st !! obj); simpl; lia.
  - lia.
Qed.

Lemma step_objects_size s st :
  size (Process.objects (Process.step s st))
  = (size (Process.objects st) + (if Process.is_new s then 1 else 0))%nat.
Proof.
  destruct s as [number b owner now | obj c |]; simpl.
  - rewrite map_size_insert_None; [lia|].
    apply not_elem_of_dom, is_fresh.
  - destruct (Process.objects st !! obj) eqn:Hobj; simpl; [|lia].
    rewrite map_size_insert_Some; [lia | done].
  - lia.
Qed.

Lemma exec_total_accounts prog : ∀ st,
  Process.total_accounts (Process.exec prog st)
  = Process.total_accounts st + Process.constructions prog
  ∧ size (Process.objects (Process.exec prog st))
    = (size (Process.objects st) + length (filter Process.is_new prog))%nat.
Proof.
  unfold Process.constructions.
  induction prog as [| s prog IH]; intros st; simpl.
  - split; lia.
  - destruct (IH (Process.step s st)) as [-> ->].
    rewrite step_total_accounts, step_objects_size, filter_cons.
    destruct (Process.is_new s); simpl; split; lia.
Qed.

(** C7: [get_total_accounts()] returns the number of accounts constructed
    since the process started, which is also the number of instances; each
    construction adds exactly 1 to it, no program makes it smaller, and no
    call of [deposit], [withdraw], [suspend_account], [activate_account] or
    of a getter on any instance changes it. *)
Theorem total_accounts_counts_constructions
    (prog : list Process.statement) (st : Process.state) :
  Process.total (Process.exec prog Process.start) = Process.constructions prog
  ∧ Process.total (Process.exec prog Process.start)
    = Z.of_nat (size (Process.objects (Process.exec prog Process.start)))
  ∧ Process.total (Process.exec prog st)
    = Process.total st + Process.constructions prog
  ∧ Process.total st <= Process.total (Process.exec prog st)
  ∧ (∀ number initial_balance owner now,
       Process.total (Process.step (Process.New number initial_balance owner now) st)
       = Process.total st + 1)
  ∧ (∀ obj c, Process.total (Process.step (Process.Call obj c) st) = Process.total st)
  ∧ Process.total (Process.step Process.GetTotalAccounts st) = Process.total st.
Proof.
  unfold Process.total, get_total_accounts.
  destruct (exec_total_accounts prog Process.start) as [Hstart Hsize].
  destruct (exec_total_accounts prog st) as [Hst _].
  split_and!.
  - rewrite Hstart. simpl. lia.
  - rewrite Hstart, Hsize. unfold Process.constructions. simpl.
    rewrite map_size_empty. lia.
  - done.
  - rewrite Hst. unfold Process.constructions. lia.
  - done.
  - intros obj c. rewrite step_total_accounts. simpl. lia.
  - rewrite step_total_accounts. simpl. lia.
Qed.

(** ** The history as a shared list object *)

(** Writing an object at a reference that holds no dictionary does not
    change what any dictionary reads as. *)
Lemma read_dict_insert h r o x d :
  Store.read_dict h x = Some d →
  (∀ d', h !! r ≠ Some (Store.DictObj d')) →
  Store.read_dict (<[r := o]> h) x = Some d.
Proof.
  unfold Store.read_dict. intros Hx Hr.
  destruct (decide (r = x)) as [-> | Hne].
  - destruct (h !! x) as [[items | d'] |] eqn:Hhx; try discriminate.
    by destruct (Hr d').
  - by rewrite lookup_insert_ne.
Qed.

Lemma read_items_insert h r o items ds :
  mapM (Store.read_dict h) items = Some ds →
  (∀ d', h !! r ≠ Some (Store.DictObj d')) →
  mapM (Store.read_dict (<[r := o]> h)) items = Some ds.
Proof.
  rewrite !mapM_Some. intros Hall Hr.
  eapply Forall2_impl; [exact Hall|].
  intros x d Hx. by apply read_dict_insert.
Qed.

Lemma fresh_unused (h : gmap Store.ref Store.object) : h !! fresh (dom h) = None.
Proof. apply not_elem_of_dom, is_fresh. Qed.

Lemma view_history st acc :
  Store.view st = Some acc →
  ∃ items,
    Store.heap st !! Store.Obj.transaction_history (Store.self st)
      = Some (Store.ListObj items)
    ∧ mapM (Store.read_dict (Store.heap st)) items = Some (transaction_history acc)
    ∧ acc = Account (Store.Obj.account_number (Store.self st))
              (Store.Obj.balance (Store.self st)) (Store.Obj.name (Store.self st))
              (transaction_history acc) (Store.Obj.account_status (Store.self st))
              (Store.Obj.created_at (Store.self st)).
Proof.
  unfold Store.view, Store.history, Store.read_list. intros Hview.
  destruct (Store.heap st !! _) as [[items | d] |]; try discriminate.
  exists items. split; [done|].
  destruct (mapM _ items) as [ds |]; [|discriminate].
  simpl in Hview. injection Hview as <-. by split.
Qed.

(** The store model refines the value model: construction and the two
    mutating methods act on a stored instance as they act on the account it
    stands for. *)
Lemma view_init number initial_balance owner now total h :
  Store.view (fst (Store.init number initial_balance owner now total h))
  = Some (fst (init number initial_balance owner now total))
  ∧ snd (Store.init number initial_balance owner now total h)
    = snd (init number initial_balance owner now total).
Proof.
  unfold Store.init, Store.alloc, Store.view, Store.history, Store.read_list; simpl.
  by rewrite lookup_insert_eq.
Qed.

Lemma view_add_transaction ty amt now st acc :
  Store.view st = Some acc →
  ∃ st',
    Store.add_transaction ty amt now st = Some st'
    ∧ Store.view st' = Some (fst (add_transaction ty amt now acc)).
Proof.
  intros Hview.
  destruct (view_history _ _ Hview) as (items & Hlist & Hitems & Hacc).
  unfold Store.add_transaction, Store.alloc.
  pose proof (fresh_unused (Store.heap st)) as Hfresh.
  set (d := fresh (dom (Store.heap st))) in *.
  set (hr := Store.Obj.transaction_history (Store.self st)) in *.
  assert (d ≠ hr) as Hne by congruence.
  rewrite lookup_insert_ne, Hlist by done.
  eexists. split; [reflexivity|].
  unfold Store.view, Store.history, Store.read_list; simpl. fold hr.
  rewrite lookup_insert_eq.
  set (t := Transaction ty amt now (Store.Obj.balance (Store.self st))).
  assert (mapM (Store.read_dict
                  (<[hr := Store.ListObj (items ++ [d])]>
                     (<[d := Store.DictObj t]> (Store.heap st))))
            (items ++ [d]) = Some (transaction_history acc ++ [t])) as ->.
  { apply mapM_Some, Forall2_app.
    - apply mapM_Some, read_items_insert.
      + apply read_items_insert; [done|]. intros d'. by rewrite Hfresh.
      + intros d'. rewrite lookup_insert_ne, Hlist by done. discriminate.
    - repeat constructor. unfold Store.read_dict.
      by rewrite lookup_insert_ne, lookup_insert_eq. }
  rewrite Hacc. reflexivity.
Qed.

Lemma view_set_balance b st acc :
  Store.view st = Some acc →
  Store.view (Store.State (Store.set_balance b (Store.self st)) (Store.heap st))
  = Some (fst (set_balance b acc)).
Proof.
  intros Hview. destruct (view_history _ _ Hview) as (items & Hlist & Hitems & ->).
  unfold Store.view, Store.history, Store.read_list; simpl.
  by rewrite Hlist, Hitems.
Qed.

Lemma view_attrs st acc :
  Store.view st = Some acc →
  Store.Obj.account_status (Store.self st) = account_status acc
  ∧ Store.Obj.balance (Store.self st) = balance acc.
Proof.
  intros Hview. by destruct (view_history _ _ Hview) as (items & _ & _ & ->).
Qed.

Lemma view_deposit amt now st acc :
  Store.view st = Some acc →
  ∃ st',
    Store.deposit amt now st = Some (st', snd (deposit amt now acc))
    ∧ Store.view st' = Some (fst (deposit amt now acc)).
Proof.
  intros Hview. destruct (view_attrs _ _ Hview) as [Hst Hb].
  unfold Store.deposit. rewrite deposit_cases, Hst, Hb.
  destruct (negb _); [by exists st|].
  destruct (amt <=? 0)%float; [by exists st|].
  destruct (view_add_transaction "deposit" amt now _ _
              (view_set_balance (balance acc + amt)%float _ _ Hview)) as (st' & -> & Hview').
  exists st'. split; [done|]. by rewrite Hview'.
Qed.

Lemma view_withdraw amt now st acc :
  Store.view st = Some acc →
  ∃ st',
    Store.withdraw amt now st = Some (st', snd (withdraw amt now acc))
    ∧ Store.view st' = Some (fst (withdraw amt now acc)).
Proof.
  intros Hview. destruct (view_attrs _ _ Hview) as [Hst Hb].
  unfold Store.withdraw. rewrite withdraw_cases, Hst, Hb.
  destruct (negb _); [by exists st|].
  destruct (amt <=? 0)%float; [by exists st|].
  destruct (balance acc <? amt)%float; [by exists st|].
  destruct (view_add_transaction "withdraw" amt now _ _
              (view_set_balance (balance acc - amt)%float _ _ Hview)) as (st' & -> & Hview').
  exists st'. split; [done|]. by rewrite Hview'.
Qed.




(** * Further properties of the class *)

(** ** What each outcome of [deposit] and [withdraw] means *)

Lemma ltb_true_not_nan (x y : float) :
  (x <? y)%float = true → is_nan x = false ∧ is_nan y = false.
Proof.
  intros Hlt. destruct (is_nan x) eqn:Hx, (is_nan y) eqn:Hy; try done;
    assert ((x <? y)%float = false) as Hf
      by (apply ltb_false_iff; auto); congruence.
Qed.

(** Failing the test [amount <= 0] means being positive or NaN. *)
Lemma not_leb_zero (a : float) :
  (a <=? 0)%float = false ↔ (0 <? a)%float = true ∨ is_nan a = true.
Proof.
  rewrite leb_false_iff. split; [|tauto].
  intros [? | [? | ?]]; [tauto | tauto | done].
Qed.

(** X1: [deposit] returns exactly when the status is "active" and the
    amount is greater than 0 or NaN (NaN is not at most 0 and passes the
    check); it raises AccountSuspended exactly when the status is not
    "active" (whatever the amount), InvalidAmount exactly when the status
    is "active" and the amount is at most 0, and never InsufficientFunds. *)
Theorem deposit_outcome_iff (self : BankAccount) (amt : float) (now : Z) :
  (snd (deposit amt now self) = Return tt
     ↔ account_status self = "active"
       ∧ ((0 <? amt)%float = true ∨ is_nan amt = true))
  ∧ (snd (deposit amt now self) = Raise AccountSuspended
     ↔ account_status self ≠ "active")
  ∧ (snd (deposit amt now self) = Raise InvalidAmount
     ↔ account_status self = "active" ∧ (amt <=? 0)%float = true)
  ∧ snd (deposit amt now self) ≠ Raise InsufficientFunds.
Proof.
  rewrite deposit_cases, <- not_leb_zero.
  destruct (String.eqb_spec (account_status self) "active") as [Hst | Hst];
    destruct (amt <=? 0)%float; simpl;
    split_and!; try split; try done; intros; destruct_and?; done.
Qed.

(** X2: [withdraw] returns exactly when the status is "active", the
    amount is greater than 0 or NaN, and the amount is at most the balance
    or one of the two is NaN (NaN fails both comparisons the method makes,
    so it passes both checks); AccountSuspended is raised exactly when the
    status is not "active", InvalidAmount exactly when the account is
    active and the amount is at most 0, InsufficientFunds exactly when the
    account is active, the amount greater than 0 and the balance smaller
    than the amount. *)
Theorem withdraw_outcome_iff (self : BankAccount) (amt : float) (now : Z) :
  (snd (withdraw amt now self) = Return tt
     ↔ account_status self = "active"
       ∧ ((0 <? amt)%float = true ∨ is_nan amt = true)
       ∧ ((amt <=? balance self)%float = true
          ∨ is_nan (balance self) = true ∨ is_nan amt = true))
  ∧ (snd (withdraw amt now self) = Raise AccountSuspended
     ↔ account_status self ≠ "active")
  ∧ (snd (withdraw amt now self) = Raise InvalidAmount
     ↔ account_status self = "active" ∧ (amt <=? 0)%float = true)
  ∧ (snd (withdraw amt now self) = Raise InsufficientFunds
     ↔ account_status self = "active" ∧ (0 <? amt)%float = true
       ∧ (balance self <? amt)%float = true).
Proof.
  rewrite withdraw_cases, <- not_leb_zero, <- ltb_false_iff.
  assert ((balance self <? amt)%float = true → (amt <=? 0)%float = false
          → (0 <? amt)%float = true) as Hpos.
  { intros [_ Hnan]%ltb_true_not_nan [? | ?]%not_leb_zero; congruence. }
  pose proof (ltb_not_leb 0 amt) as Hneg.
  destruct (String.eqb_spec (account_status self) "active") as [Hst | Hst];
    destruct (amt <=? 0)%float eqn:Hamt;
    destruct (balance self <? amt)%float eqn:Hb; simpl;
    split_and!; try split; try done; intros; destruct_and?;
    try done; try (split_and!; auto; done); auto;
    try (exfalso; naive_solver).
Qed.

Lemma ltb_irrefl (x : float) : (x <? x)%float = false.
Proof.
  rewrite FloatAxioms.ltb_spec. unfold SFltb.
  pose proof (SFcompare_antisym (Prim2SF x) (Prim2SF x)) as Hanti.
  destruct (SFcompare (Prim2SF x) (Prim2SF x)) as [[] |]; done.
Qed.

Lemma negative_below_positive (b a : float) :
  (b <? 0)%float = true → (a <=? 0)%float = false → is_nan a = false →
  (b <? a)%float = true.
Proof.
  rewrite !FloatAxioms.ltb_spec, FloatAxioms.leb_spec, is_nan_false_spec.
  intros Hb Ha Hnan.
  destruct (SFpositive_cases _ Ha Hnan) as [-> | (ma & ea & ->)];
    by destruct (Prim2SF b) as [[] | [] | | [] mb eb].
Qed.

Lemma sub_self (b : float) :
  (0 <? b)%float = true → is_finite b = true → (b - b)%float = 0%float.
Proof.
  rewrite FloatAxioms.ltb_spec. intros Hpos [Hnan Hinf]%is_finite_spec.
  apply Prim2SF_inj. rewrite sub_spec.
  destruct (Prim2SF b) as [[] | [] | | [] mb eb]; try done.
  - by destruct (Hinf false).
  - unfold SF64sub, SFsub. simpl cond_Zopp. by rewrite Z.sub_diag.
Qed.

(** X3: a [withdraw] that returns, of a finite amount from a balance that
    is not NaN, leaves a balance of at least 0, whatever the balance was;
    an account with a balance below 0 admits no withdrawal of an amount
    that is not NaN (the call raises and leaves the object as it was); and
    the funds test is strict, so withdrawing exactly a finite positive
    balance from an active account returns and leaves 0. *)
Theorem withdraw_never_overdraws (self : BankAccount) (amt : float) (now : Z) :
  (snd (withdraw amt now self) = Return tt →
     is_nan (balance self) = false → is_finite amt = true →
     (0 <=? balance (fst (withdraw amt now self)))%float = true)
  ∧ ((balance self <? 0)%float = true → is_nan amt = false →
     ∃ e, withdraw amt now self = (self, Raise e))
  ∧ (account_status self = "active" → (0 <? balance self)%float = true →
     is_finite (balance self) = true →
     snd (withdraw (balance self) now self) = Return tt
     ∧ balance (fst (withdraw (balance self) now self)) = 0%float).
Proof.
  rewrite !withdraw_cases. split_and!.
  - destruct (negb _); [done|].
    destruct (amt <=? 0)%float eqn:Hamt; [done|].
    destruct (balance self <? amt)%float eqn:Hb; [done|]. simpl.
    intros _ Hnan Hfin. by apply sub_nonneg.
  - intros Hneg Hnan. destruct (negb _); [by eexists|].
    destruct (amt <=? 0)%float eqn:Hamt; [by eexists|].
    rewrite (negative_below_positive _ _ Hneg Hamt Hnan). by eexists.
  - intros Hst Hpos Hfin.
    rewrite (status_test_active _ Hst), (ltb_not_leb _ _ Hpos), ltb_irrefl. simpl.
    split; [done|]. by apply sub_self.
Qed.

(** ** What a sequence of calls keeps *)

Lemma after_logs c self :
  transaction_history (after c self)
  = transaction_history self
      ++ (if logs c self
          then [Transaction (match c with Deposit _ _ => "deposit" | _ => "withdraw" end)
                  (match c with Deposit a _ | Withdraw a _ => a | _ => 0%float end)
                  (default 0 (call_time c))
                  (balance (after c self))]
          else []).
Proof.
  destruct c as [amt now | amt now | | | |]; unfold after, logs, call_method;
    try (simpl; by rewrite app_nil_r).
  - rewrite deposit_cases.
    destruct (negb _); [simpl; by rewrite app_nil_r|].
    destruct (amt <=? 0)%float; simpl; [by rewrite app_nil_r | done].
  - rewrite withdraw_cases.
    destruct (negb _); [simpl; by rewrite app_nil_r|].
    destruct (amt <=? 0)%float; [simpl; by rewrite app_nil_r|].
    destruct (balance self <? amt)%float; simpl; [by rewrite app_nil_r | done].
Qed.

(** X4: the history grows by exactly one entry for each [deposit] or
    [withdraw] that returns and by none for any other call: after a
    sequence of calls its length is its length before plus the number of
    calls that returned from [deposit] or [withdraw]. *)
Theorem history_length_counts_successes (calls : list call) (self : BankAccount) :
  length (transaction_history (run calls self))
  = (length (transaction_history self) + successes calls self)%nat.
Proof.
  revert self. induction calls as [| c calls IH]; intros self; simpl.
  - lia.
  - unfold run in IH. rewrite IH, after_logs, length_app.
    destruct (logs c self); simpl; lia.
Qed.

(** X5: the history is append-only: whatever calls follow, the history
    reached after a first sequence of calls stays, unchanged and in place,
    at the front of the later history. *)
Theorem history_append_only (calls1 calls2 : list call) (self : BankAccount) :
  transaction_history (run calls1 self)
    `prefix_of` transaction_history (run (calls1 ++ calls2) self).
Proof.
  rewrite run_app. generalize (run calls1 self) as s.
  induction calls2 as [| c calls2 IH]; intros s; simpl.
  - done.
  - etrans; [|apply IH]. rewrite after_logs. by apply prefix_app_r.
Qed.

Lemma fixed_attributes_after calls : ∀ self,
  account_number (run calls self) = account_number self
  ∧ name (run calls self) = name self
  ∧ created_at (run calls self) = created_at self.
Proof.
  induction calls as [| c calls IH]; intros self; simpl; [done|].
  destruct (IH (after c self)) as (-> & -> & ->).
  destruct c as [amt now | amt now | | | |]; unfold after, call_method; try done.
  - rewrite deposit_cases. destruct (negb _); [done|]. by destruct (amt <=? 0)%float.
  - rewrite withdraw_cases. destruct (negb _); [done|].
    destruct (amt <=? 0)%float; [done|]. by destruct (balance self <? amt)%float.
Qed.

(** X6: no call changes the account number, the owner's name or the
    creation time, and only [suspend_account] and [activate_account] change
    the status: after any sequence of calls the first three are as
    constructed, and a sequence without those two calls leaves the status
    as it was. *)
Theorem fixed_attributes (calls : list call) (self : BankAccount) :
  account_number (run calls self) = account_number self
  ∧ name (run calls self) = name self
  ∧ created_at (run calls self) = created_at self
  ∧ (Forall (λ c, c ≠ SuspendAccount ∧ c ≠ ActivateAccount) calls →
     account_status (run calls self) = account_status self).
Proof.
  revert self. induction calls as [| c calls IH]; intros self; simpl; [done|].
  destruct (IH (after c self)) as (-> & -> & -> & Hst).
  assert (account_number (after c self) = account_number self
          ∧ name (after c self) = name self
          ∧ created_at (after c self) = created_at self
          ∧ (c ≠ SuspendAccount → c ≠ ActivateAccount →
             account_status (after c self) = account_status self))
    as (-> & -> & -> & Hc).
  { destruct c as [amt now | amt now | | | |]; unfold after, call_method;
      try done.
    - rewrite deposit_cases. destruct (negb _); [done|]. by destruct (amt <=? 0)%float.
    - rewrite withdraw_cases. destruct (negb _); [done|].
      destruct (amt <=? 0)%float; [done|]. by destruct (balance self <? amt)%float. }
  split_and!; try done.
  intros Hall. apply Forall_cons in Hall as [[Hs Ha] Hall].
  by rewrite Hst, Hc.
Qed.

(** ** Suspension *)

Lemma after_not_active c self :
  account_status self ≠ "active" → is_activate c = false →
  account_status (after c self) ≠ "active"
  ∧ balance (after c self) = balance self
  ∧ transaction_history (after c self) = transaction_history self
  ∧ logs c self = false.
Proof.
  intros Hst Hc.
  destruct c as [amt now | amt now | | | |]; unfold after, logs, call_method;
    try done.
  - by rewrite deposit_cases, (status_test_other _ Hst).
  - by rewrite withdraw_cases, (status_test_other _ Hst).
Qed.

Lemma not_active_run calls : ∀ self,
  account_status self ≠ "active" →
  Forall (λ c, is_activate c = false) calls →
  balance (run calls self) = balance self
  ∧ transaction_history (run calls self) = transaction_history self.
Proof.
  induction calls as [| c calls IH]; intros self Hst Hall; simpl; [done|].
  apply Forall_cons in Hall as [Hc Hall].
  destruct (after_not_active c self Hst Hc) as (Hst' & <- & <- & _).
  by apply IH.
Qed.

(** X7: while the status is not "active", the account is frozen: over any
    sequence of calls that does not contain [activate_account], the balance
    and the history stay exactly as they were, no call logs a transaction,
    and the status stays other than "active". *)
Theorem suspended_account_is_frozen (calls : list call) (self : BankAccount) :
  account_status self ≠ "active" →
  Forall (λ c, is_activate c = false) calls →
  balance (run calls self) = balance self
  ∧ transaction_history (run calls self) = transaction_history self
  ∧ successes calls self = 0%nat
  ∧ account_status (run calls self) ≠ "active".
Proof.
  revert self. induction calls as [| c calls IH]; intros self Hst Hall; simpl.
  - done.
  - apply Forall_cons in Hall as [Hc Hall].
    destruct (after_not_active c self Hst Hc) as (Hst' & Hb & Hh & Hl).
    destruct (IH (after c self) Hst' Hall) as (-> & -> & -> & Hfinal).
    by rewrite Hb, Hh, Hl.
Qed.

Lemma suspended_account_is_frozen_witness :
  balance (run [Deposit 100 3; Withdraw 50 4; GetBalance; SuspendAccount]
             (Account 1001 1200 "a" [] "suspended" 0)) = 1200%float
  ∧ transaction_history
      (run [Deposit 100 3; Withdraw 50 4; GetBalance; SuspendAccount]
         (Account 1001 1200 "a" [] "suspended" 0)) = []
  ∧ successes [Deposit 100 3; Withdraw 50 4; GetBalance; SuspendAccount]
      (Account 1001 1200 "a" [] "suspended" 0) = 0%nat
  ∧ account_status
      (run [Deposit 100 3; Withdraw 50 4; GetBalance; SuspendAccount]
         (Account 1001 1200 "a" [] "suspended" 0)) ≠ "active".
Proof.
  apply (suspended_account_is_frozen
           [Deposit 100 3; Withdraw 50 4; GetBalance; SuspendAccount]
           (Account 1001 1200 "a" [] "suspended" 0)).
  - discriminate.
  - repeat constructor.
Defined.

(** X8: suspending an active account, making any calls that do not
    reactivate it, and then activating it again gives back the very object
    the sequence started from: the calls in between had no effect. *)
Theorem suspension_window_has_no_effect (calls : list call) (self : BankAccount) :
  account_status self = "active" →
  Forall (λ c, is_activate c = false) calls →
  run (SuspendAccount :: calls ++ [ActivateAccount]) self = self.
Proof.
  intros Hst Hall. change (SuspendAccount :: calls ++ [ActivateAccount])
    with ((SuspendAccount :: calls) ++ [ActivateAccount]).
  rewrite run_snoc. simpl.
  destruct (not_active_run calls (after SuspendAccount self))
    as (Hb & Hh); [done | done |].
  destruct (fixed_attributes_after calls (after SuspendAccount self))
    as (Hn & Ho & Ht).
  destruct self as [n b o h st t]. simpl in *. subst st.
  unfold after at 1. simpl.
  destruct (run calls _) as [n' b' o' h' st' t']. simpl in *.
  by subst.
Qed.

Lemma suspension_window_has_no_effect_witness :
  run (SuspendAccount :: [Deposit 100 3; Withdraw 50 4] ++ [ActivateAccount])
    (Account 1001 1200 "a" [] "active" 0)
  = Account 1001 1200 "a" [] "active" 0.
Proof.
  apply suspension_window_has_no_effect.
  - reflexivity.
  - repeat constructor.
Defined.

(** ** What the history records *)

Lemma after_record c self :
  logs c self = true →
  ∃ amt now,
    (c = Deposit amt now ∨ c = Withdraw amt now)
    ∧ call_time c = Some now ∧ (amt <=? 0)%float = false
    ∧ transaction_history (after c self)
      = transaction_history self
          ++ [Transaction (match c with Deposit _ _ => "deposit" | _ => "withdraw" end)
                amt now (balance (after c self))]
    ∧ (match c with
       | Deposit _ _ => balance (after c self) = (balance self + amt)%float
       | _ => balance (after c self) = (balance self - amt)%float
              ∧ (balance self <? amt)%float = false
       end).
Proof.
  destruct c as [amt now | amt now | | | |]; unfold after, logs, call_method;
    try discriminate.
  - rewrite deposit_cases. destruct (negb _); [discriminate|].
    destruct (amt <=? 0)%float eqn:Hamt; [discriminate|]. intros _.
    exists amt, now. split_and!; auto.
  - rewrite withdraw_cases. destruct (negb _); [discriminate|].
    destruct (amt <=? 0)%float eqn:Hamt; [discriminate|].
    destruct (balance self <? amt)%float eqn:Hb; [discriminate|]. intros _.
    exists amt, now. simpl. split_and!; auto.
Qed.

Lemma after_no_record c self :
  logs c self = false →
  transaction_history (after c self) = transaction_history self
  ∧ balance (after c self) = balance self.
Proof.
  destruct c as [amt now | amt now | | | |]; unfold after, logs, call_method;
    try done.
  - rewrite deposit_cases. destruct (negb _); [done|].
    by destruct (amt <=? 0)%float.
  - rewrite withdraw_cases. destruct (negb _); [done|].
    destruct (amt <=? 0)%float; [done|]. by destruct (balance self <? amt)%float.
Qed.

Lemma regular_not_nan c amt now :
  (c = Deposit amt now ∨ c = Withdraw amt now) → regular c = true →
  is_nan amt = false.
Proof.
  intros [-> | ->]; simpl.
  - by destruct (is_nan amt).
  - intros [Hnan _]%is_finite_spec. by apply is_nan_false_spec.
Qed.

(** X9: every transaction in the history of a constructed account, after
    any sequence of calls, has the type "deposit" or "withdraw" and an
    amount that is not at most 0 (so positive or NaN); when no [deposit]
    of the sequence took NaN and every [withdraw] took a finite amount,
    every logged amount is greater than 0, and if moreover the initial
    balance was at least 0, no transaction records a balance below 0. *)
Theorem logged_transactions_are_valid (number : Z) (initial_balance : float)
    (owner : string) (now total : Z) (calls : list call) :
  let h := transaction_history
             (run calls (fst (init number initial_balance owner now total))) in
  Forall (λ t, (type t = "deposit" ∨ type t = "withdraw")
               ∧ (amount t <=? 0)%float = false) h
  ∧ (Forall (λ c, regular c = true) calls →
     Forall (λ t, (0 <? amount t)%float = true) h
     ∧ ((0 <=? initial_balance)%float = true →
        Forall (λ t, (0 <=? balance_after t)%float = true) h)).
Proof.
  intros h. subst h.
  set (P1 t := (type t = "deposit" ∨ type t = "withdraw")
               ∧ (amount t <=? 0)%float = false).
  assert (∀ self,
    Forall P1 (transaction_history self) →
    Forall P1 (transaction_history (run calls self))
    ∧ (Forall (λ c, regular c = true) calls →
       Forall (λ t, (0 <? amount t)%float = true) (transaction_history self) →
       Forall (λ t, (0 <? amount t)%float = true) (transaction_history (run calls self))
       ∧ ((0 <=? balance self)%float = true →
          Forall (λ t, (0 <=? balance_after t)%float = true) (transaction_history self) →
          Forall (λ t, (0 <=? balance_after t)%float = true)
            (transaction_history (run calls self))))) as Hinv.
  { induction calls as [| c calls IH]; intros self H1; simpl; [by auto|].
    destruct (logs c self) eqn:Hlogs.
    - destruct (after_record c self Hlogs)
        as (amt & t & Hc & _ & Hamt & Hh & Hbal).
      destruct (IH (after c self)) as [IH1 IH2].
      { rewrite Hh. apply Forall_app. split; [done|].
        constructor; [|constructor]. split; [|done]. simpl. destruct c; auto. }
      split; [done|]. intros [Hreg Hregs]%Forall_cons H2.
      pose proof (regular_not_nan c amt t Hc Hreg) as Hnan.
      destruct (IH2 Hregs) as [IH3 IH4].
      { rewrite Hh. apply Forall_app. split; [done|].
        constructor; [|constructor]. simpl.
        apply not_leb_zero in Hamt as [? | ?]; [done | congruence]. }
      split; [done|]. intros Hb H3.
      assert ((0 <=? balance (after c self))%float = true) as Hb'
        by by apply after_nonnegative.
      apply IH4; [done|]. rewrite Hh. apply Forall_app. split; [done|].
      by constructor; [|constructor].
    - destruct (after_no_record c self Hlogs) as [Hh Hbal].
      destruct (IH (after c self)) as [IH1 IH2]; [by rewrite Hh|].
      split; [done|]. intros [Hreg Hregs]%Forall_cons H2.
      destruct (IH2 Hregs) as [IH3 IH4]; [by rewrite Hh|].
      split; [done|]. intros Hb H3. apply IH4; by rewrite ?Hh, ?Hbal. }
  destruct (Hinv (fst (init number initial_balance owner now total))) as [H1 H2];
    [by constructor|].
  split; [done|]. intros Hregs.
  destruct (H2 Hregs) as [H3 H4]; [by constructor|].
  split; [done|]. intros Hb. apply H4; [done | by constructor].
Qed.

Lemma replay_snoc b h t :
  replay b (h ++ [t])
  = if (type t =? "deposit")%string then (replay b h + amount t)%float
    else if (type t =? "withdraw")%string then (replay b h - amount t)%float
    else replay b h.
Proof. unfold replay. by rewrite fold_left_app. Qed.

(** X10: the balance is what replaying the history gives: after any
    sequence of calls on a constructed account, [get_balance] returns,
    without changing the object, the float obtained from the initial
    balance by adding the amount of each "deposit" transaction and
    subtracting the amount of each "withdraw" transaction, in the order of
    the history. *)
Theorem balance_reconciles_with_history (number : Z) (initial_balance : float)
    (owner : string) (now total : Z) (calls : list call) :
  let self := run calls (fst (init number initial_balance owner now total)) in
  get_balance self
  = (self, Return (replay initial_balance (transaction_history self))).
Proof.
  intros self. unfold get_balance, get_attr. do 2 f_equal. subst self.
  assert (∀ self, balance self = replay initial_balance (transaction_history self) →
            balance (run calls self)
            = replay initial_balance (transaction_history (run calls self))) as Hinv.
  { induction calls as [| c calls IH]; intros self Hself; simpl; [done|].
    apply IH. destruct (logs c self) eqn:Hlogs.
    - destruct (after_record c self Hlogs) as (amt & t & _ & _ & _ & -> & Hbal).
      rewrite replay_snoc, <- Hself. destruct c; simpl in *; try done.
      by destruct Hbal.
    - destruct (after_no_record c self Hlogs) as [-> ->]. done. }
  by apply Hinv.
Qed.

Lemma StronglySorted_sublist (l1 l2 : list Z) :
  l1 `sublist_of` l2 → StronglySorted Z.le l2 → StronglySorted Z.le l1.
Proof.
  induction 1 as [| x l1 l2 Hsub IH | x l1 l2 Hsub IH]; intros Hsorted.
  - constructor.
  - apply StronglySorted_inv in Hsorted as [Hl2 Hx].
    constructor; [by apply IH|].
    rewrite Forall_forall in Hx |- *. intros y Hy.
    apply Hx. by eapply elem_of_sublist.
  - apply StronglySorted_inv in Hsorted as [Hl2 _]. by apply IH.
Qed.

Lemma timestamps_run calls : ∀ self,
  ∃ times,
    timestamp <$> transaction_history (run calls self)
    = (timestamp <$> transaction_history self) ++ times
    ∧ times `sublist_of` omap call_time calls.
Proof.
  induction calls as [| c calls IH]; intros self; simpl.
  - exists []. by rewrite app_nil_r.
  - destruct (IH (after c self)) as (times & -> & Hsub).
    destruct (logs c self) eqn:Hlogs.
    + destruct (after_record c self Hlogs) as (amt & now & _ & -> & _ & -> & _).
      exists (now :: times). rewrite fmap_app, <- app_assoc. simpl.
      split; [done|]. by constructor.
    + destruct (after_no_record c self Hlogs) as [-> _].
      exists times. split; [done|].
      destruct (call_time c); [by constructor | done].
Qed.

(** X12: each transaction carries the clock reading of the call that
    logged it, in call order: the timestamps of the history of a
    constructed account are a subsequence of the clock readings of the
    [deposit] and [withdraw] calls made.  So if the clock never ran
    backwards between calls, the history is in chronological order. *)
Theorem history_timestamps_follow_calls (number : Z) (initial_balance : float)
    (owner : string) (now total : Z) (calls : list call) :
  let self := run calls (fst (init number initial_balance owner now total)) in
  (timestamp <$> transaction_history self) `sublist_of` omap call_time calls
  ∧ (StronglySorted Z.le (omap call_time calls) →
     StronglySorted Z.le (timestamp <$> transaction_history self)).
Proof.
  intros self.
  destruct (timestamps_run calls (fst (init number initial_balance owner now total)))
    as (times & Heq & Hsub).
  subst self. rewrite Heq. simpl.
  split; [done|]. by apply StronglySorted_sublist.
Qed.

(** ** A returned list does not follow the account *)

Lemma add_transaction_keeps_lists ty amt now st st' acc r l :
  Store.view st = Some acc →
  Store.add_transaction ty amt now st = Some st' →
  r ≠ Store.Obj.transaction_history (Store.self st) →
  Store.read_list (Store.heap st) r = Some l →
  Store.read_list (Store.heap st') r = Some l.
Proof.
  intros Hview Hadd Hne Hread.
  destruct (view_history _ _ Hview) as (items & Hlist & _ & _).
  unfold Store.add_transaction, Store.alloc in Hadd.
  pose proof (fresh_unused (Store.heap st)) as Hfresh.
  set (d := fresh (dom (Store.heap st))) in *.
  set (hr := Store.Obj.transaction_history (Store.self st)) in *.
  assert (d ≠ hr) as Hd by congruence.
  rewrite lookup_insert_ne, Hlist in Hadd by done.
  injection Hadd as <-. simpl.
  unfold Store.read_list in *.
  destruct (Store.heap st !! r) as [[ritems | ?] |] eqn:Hr; try discriminate.
  assert (d ≠ r) as Hdr by congruence.
  rewrite lookup_insert_ne, lookup_insert_ne, Hr by done.
  apply read_items_insert.
  - apply read_items_insert; [done|]. intros d'. by rewrite Hfresh.
  - intros d'. rewrite lookup_insert_ne, Hlist by done. discriminate.
Qed.

(** X14: the list returned by [get_transaction_history] is a snapshot: a
    later [deposit] or [withdraw] on the account, whether it returns or
    raises, appends to the account's own list only, and the list returned
    earlier still reads as the history at the time of the call. *)
Theorem returned_list_is_a_snapshot (st : Store.state) (acc : BankAccount)
    (amt : float) (now : Z) :
  Store.view st = Some acc →
  ∃ st1 r,
    Store.get_transaction_history st = Some (st1, r)
    ∧ (∃ st2, Store.deposit amt now st1 = Some (st2, snd (deposit amt now acc))
              ∧ Store.view st2 = Some (fst (deposit amt now acc))
              ∧ Store.read_list (Store.heap st2) r = Some (transaction_history acc))
    ∧ (∃ st2, Store.withdraw amt now st1 = Some (st2, snd (withdraw amt now acc))
              ∧ Store.view st2 = Some (fst (withdraw amt now acc))
              ∧ Store.read_list (Store.heap st2) r = Some (transaction_history acc)).
Proof.
  intros Hview.
  destruct (view_history _ _ Hview) as (items & Hlist & Hitems & Hacc).
  pose proof (fresh_unused (Store.heap st)) as Hfresh.
  unfold Store.get_transaction_history, Store.alloc. rewrite Hlist.
  set (r := fresh (dom (Store.heap st))) in *.
  set (hr := Store.Obj.transaction_history (Store.self st)) in *.
  assert (r ≠ hr) as Hne by congruence.
  set (st1 := Store.State (Store.self st) (<[r := Store.ListObj items]> (Store.heap st))).
  assert (∀ d', Store.heap st !! r ≠ Some (Store.DictObj d')) as Hnodict.
  { intros d'. by rewrite Hfresh. }
  assert (Store.view st1 = Some acc) as Hview1.
  { unfold Store.view, Store.history, Store.read_list; simpl. fold hr.
    rewrite lookup_insert_ne, Hlist by done.
    rewrite (read_items_insert _ r _ items (transaction_history acc)) by done.
    simpl. by rewrite Hacc. }
  assert (Store.read_list (Store.heap st1) r = Some (transaction_history acc)) as Hread1.
  { unfold Store.read_list; simpl. rewrite lookup_insert_eq.
    by apply read_items_insert. }
  destruct (view_attrs _ _ Hview1) as [Hst Hb].
  exists st1, r. split_and!; [done | |].
  - destruct (view_deposit amt now st1 acc Hview1) as (st2 & Hdep & Hview2).
    exists st2. split_and!; [done | done |].
    revert Hdep. unfold Store.deposit. rewrite deposit_cases.
    destruct (negb _); [by intros [= <-]|].
    destruct (amt <=? 0)%float; [by intros [= <-]|].
    destruct (Store.add_transaction _ _ _ _) as [st2' |] eqn:Hadd; [|discriminate].
    simpl. intros [= <-].
    eapply add_transaction_keeps_lists; [| exact Hadd | done | done].
    by apply view_set_balance.
  - destruct (view_withdraw amt now st1 acc Hview1) as (st2 & Hwd & Hview2).
    exists st2. split_and!; [done | done |].
    revert Hwd. unfold Store.withdraw. rewrite withdraw_cases.
    destruct (negb _); [by intros [= <-]|].
    destruct (amt <=? 0)%float; [by intros [= <-]|].
    destruct (Store.Obj.balance _ <? amt)%float; [by intros [= <-]|].
    destruct (Store.add_transaction _ _ _ _) as [st2' |] eqn:Hadd; [|discriminate].
    simpl. intros [= <-].
    eapply add_transaction_keeps_lists; [| exact Hadd | done | done].
    by apply view_set_balance.
Qed.

Lemma returned_list_is_a_snapshot_witness :
  ∃ st,
    Store.deposit 500 1 (fst (Store.init 1001 1000 "a" 0 0 ∅)) = Some (st, Return tt)
    ∧ ∃ st1 r,
        Store.get_transaction_history st = Some (st1, r)
        ∧ (∃ st2,
             Store.deposit 20 2 st1
             = Some (st2, snd (deposit 20 2
                                 (Account 1001 1500 "a"
                                    [Transaction "deposit" 500 1 1500] "active" 0)))
             ∧ Store.view st2
               = Some (fst (deposit 20 2
                              (Account 1001 1500 "a"
                                 [Transaction "deposit" 500 1 1500] "active" 0)))
             ∧ Store.read_list (Store.heap st2) r
               = Some (transaction_history
                         (Account 1001 1500 "a"
                            [Transaction "deposit" 500 1 1500] "active" 0)))
        ∧ (∃ st2,
             Store.withdraw 20 2 st1
             = Some (st2, snd (withdraw 20 2
                                 (Account 1001 1500 "a"
                                    [Transaction "deposit" 500 1 1500] "active" 0)))
             ∧ Store.view st2
               = Some (fst (withdraw 20 2
                              (Account 1001 1500 "a"
                                 [Transaction "deposit" 500 1 1500] "active" 0)))
             ∧ Store.read_list (Store.heap st2) r
               = Some (transaction_history
                         (Account 1001 1500 "a"
                            [Transaction "deposit" 500 1 1500] "active" 0))).
Proof.
  eexists. split; [vm_compute; reflexivity|].
  apply (returned_list_is_a_snapshot _
           (Account 1001 1500 "a" [Transaction "deposit" 500 1 1500] "active" 0)
           20 2).
  vm_compute. reflexivity.
Defined.
